(** * PSO: the random source and the data model of the particle swarm optimiser

    A shallow embedding of the repository's C++ sources:
    - [include/random_generator.h], [source/random_generator.cpp]: the class
      [RandomGenerator], a [std::mt19937] engine together with a
      [std::uniform_real_distribution<double>];
    - [include/pso_types.h]: the structs [Particle], [PSOParameters] and
      [OptimisationResult].

    Conventions.
    - Unsigned 32-bit words are integers of [Z] with the wrap-around written
      out ([mod 2^32], masks).
    - A [double] is modelled by an exact rational of [Q]: [uniform] computes
      in exact arithmetic.  Equality of two outputs of the same computation is
      Leibniz equality; equality of values is [Qeq].  The range of binary64 is
      modelled on top of it: [uniform_binary64] computes with the same
      formula over doubles that overflow to an infinity ([double]); rounding
      to the nearest double is outside the model.
    - The engine follows the C++ standard's definition of
      [mersenne_twister_engine] with the parameters of [mt19937]; the
      distribution follows the computation of the usual standard libraries
      ([generate_canonical<double, 53>], then [u * (b - a) + a]).
    - Stateful member functions pass the object explicitly: a method returns
      its result together with the object after the call. *)

From Stdlib Require Import ZArith QArith Qabs Lqa List Bool String Lia.
Import ListNotations.
Local Open Scope Z_scope.

(** ** std::mt19937 *)

Module MT19937.

(** The template arguments of [std::mt19937]. *)
Definition w : Z := 32.
Definition n : nat := 624.
Definition m : nat := 397.
Definition r : Z := 31.
Definition a : Z := 0x9908b0df.
Definition u : Z := 11.
Definition d : Z := 0xffffffff.
Definition s : Z := 7.
Definition b : Z := 0x9d2c5680.
Definition t : Z := 15.
Definition c : Z := 0xefc60000.
Definition l : Z := 18.
Definition f : Z := 1812433253.

Definition word_mod : Z := 2 ^ w.
Definition upper_mask : Z := Z.land (Z.shiftl (Z.ones w) r) (Z.ones w).
Definition lower_mask : Z := Z.ones r.

(** The state of the engine: the last [n] values X(i-n), ..., X(i-1) of the
    sequence, oldest first. *)
Definition state : Type := list Z.

(** X(k-n) = (f * (X(k-1-n) xor (X(k-1-n) rshift (w-2))) + k mod n) mod 2^w. *)
Fixpoint seed_words (k : nat) (i : Z) (prev : Z) : list Z :=
  match k with
  | O => []
  | S k' =>
      let x := (f * Z.lxor prev (Z.shiftr prev (w - 2)) + i mod Z.of_nat n)
                 mod word_mod in
      x :: seed_words k' (i + 1) x
  end.

(** [seed(value)], also the constructor [mt19937(value)]: every word of the
    state is rewritten from [value]. *)
Definition seed (value : Z) : state :=
  let x0 := value mod word_mod in
  x0 :: seed_words (n - 1) 1 x0.

(** The generation algorithm (tempering). *)
Definition temper (x : Z) : Z :=
  let z1 := Z.lxor x (Z.land (Z.shiftr x u) d) in
  let z2 := Z.lxor z1 (Z.land (Z.shiftl z1 s) b) in
  let z3 := Z.lxor z2 (Z.land (Z.shiftl z2 t) c) in
  Z.lxor z3 (Z.shiftr z3 l).

(** [operator()]: one step of the transition algorithm, then tempering of
    the new value. *)
Definition next (st : state) : Z * state :=
  let y := Z.lor (Z.land (nth 0 st 0) upper_mask)
                 (Z.land (nth 1 st 0) lower_mask) in
  let alpha := a * Z.land y 1 in
  let x := Z.lxor (Z.lxor (nth m st 0) (Z.shiftr y 1)) alpha in
  (temper x, tl st ++ [x]).

Fixpoint discard (k : nat) (st : state) : state :=
  match k with
  | O => st
  | S k' => discard k' (snd (next st))
  end.

Definition min : Z := 0.
Definition max : Z := word_mod - 1.

(** Every word of the state is a [w]-bit word. *)
Definition word (x : Z) : Prop := 0 <= x < word_mod.
Definition wf (st : state) : Prop := Forall word st.

End MT19937.

(** ** std::uniform_real_distribution<double> *)

Local Open Scope Q_scope.

Record param_type : Type := mk_param { param_a : Q; param_b : Q }.

(** A default-constructed distribution has the parameters (0, 1). *)
Definition default_param : param_type := mk_param 0 1.

(** The range of the engine as a real: [max() - min() + 1]. *)
Definition urng_range : Q := inject_Z (MT19937.max - MT19937.min + 1).

(** [std::nextafter(1.0, 0.0)] for a binary64 number. *)
Definition nextafter_1_0 : Q := 1 - 1 / inject_Z (2 ^ 53).

(** The loop of [generate_canonical]: [k] engine calls, each added to [sum]
    with weight [tmp]. *)
Fixpoint canonical_loop (k : nat) (g : MT19937.state) (sum tmp : Q)
  : Q * Q * MT19937.state :=
  match k with
  | O => (sum, tmp, g)
  | S k' =>
      let (z, g') := MT19937.next g in
      canonical_loop k' g' (sum + inject_Z (z - MT19937.min) * tmp)
                     (tmp * urng_range)
  end.

(** [std::generate_canonical<double, 53>(urng)]: two calls of a 32-bit engine
    cover the 53 bits; a quotient that reaches 1 is replaced by the largest
    double below 1. *)
Definition generate_canonical (g : MT19937.state) : Q * MT19937.state :=
  let '(sum, tmp, g') := canonical_loop 2 g 0 1 in
  let ret := sum / tmp in
  (if Qle_bool 1 ret then nextafter_1_0 else ret, g').

(** [distribution(urng)] with the parameters [p]. *)
Definition draw (p : param_type) (g : MT19937.state) : Q * MT19937.state :=
  let (x, g') := generate_canonical g in
  (x * (param_b p - param_a p) + param_a p, g').

(** ** RandomGenerator (random_generator.h, random_generator.cpp) *)

Record RandomGenerator : Type := mk_RandomGenerator {
  generator_ : MT19937.state;
  distribution_ : param_type
}.

(** [RandomGenerator::RandomGenerator()]: the engine is seeded with
    [std::random_device{}() ^ high_resolution_clock::now().time_since_epoch().count()].
    The two readings of the environment are arguments: [entropy] is what the
    random device returned, [ticks] the clock's count. *)
Definition RandomGenerator_default (entropy ticks : Z) : RandomGenerator :=
  mk_RandomGenerator (MT19937.seed (Z.lxor entropy ticks)) default_param.

(** [RandomGenerator::RandomGenerator(unsigned int seed)]. *)
Definition RandomGenerator_seeded (seed : Z) : RandomGenerator :=
  mk_RandomGenerator (MT19937.seed seed) default_param.

(** [double RandomGenerator::uniform(double min, double max)]. *)
Definition uniform (rg : RandomGenerator) (min max : Q) : Q * RandomGenerator :=
  let p := mk_param min max in
  let (v, g') := draw p (generator_ rg) in
  (v, mk_RandomGenerator g' p).

(** [void RandomGenerator::setSeed(unsigned int seed)]: only the engine is
    reseeded, the distribution object is left as it is. *)
Definition setSeed (rg : RandomGenerator) (seed : Z) : RandomGenerator :=
  mk_RandomGenerator (MT19937.seed seed) (distribution_ rg).

(** A call sequence: the arguments [(min, max)] of successive [uniform]
    calls on one instance; the outputs are listed in call order. *)
Fixpoint uniform_calls (rg : RandomGenerator) (calls : list (Q * Q))
  : list Q * RandomGenerator :=
  match calls with
  | [] => ([], rg)
  | (min, max) :: rest =>
      let (v, rg1) := uniform rg min max in
      let (vs, rg2) := uniform_calls rg1 rest in
      (v :: vs, rg2)
  end.

(** The error taxonomy of the specification. *)
Inductive Error : Type :=
| InvalidRange
| InvalidConfiguration.

(** How a call ends: with a value, or with an error raised to the caller. *)
Inductive outcome (A : Type) : Type :=
| Returns (x : A)
| Raises (e : Error).
Arguments Returns {A} x.
Arguments Raises {A} e.

(** A call of [uniform] as its caller observes it, in exact arithmetic.  The
    body of [uniform] has no [throw] and no check of its arguments.  What a
    call does when the distribution's preconditions are violated, or when the
    result leaves the range of binary64, is in [call_uniform_binary64]. *)
Definition call_uniform (rg : RandomGenerator) (min max : Q)
  : outcome (Q * RandomGenerator) :=
  Returns (uniform rg min max).

(** An instance that was seeded with [s]: built by the seeded constructor, or
    any instance after [setSeed(s)]. *)
Inductive seeded_with (s : Z) : RandomGenerator -> Prop :=
| seeded_by_constructor : seeded_with s (RandomGenerator_seeded s)
| seeded_by_setSeed (rg : RandomGenerator) : seeded_with s (setSeed rg s).

(** ** The structs of pso_types.h *)

Local Open Scope string_scope.

(** The member types that occur in the header. *)
Inductive ctype : Type :=
| TInt
| TDouble
| TBool
| TString
| TVectorDouble.

(** The value a member holds.  [Indeterminate] is the content of a scalar
    that no initialisation has written. *)
Inductive value : Type :=
| VInt (z : Z)
| VDouble (q : Q)
| VBool (b : bool)
| VString (s : string)
| VVector (v : list Q)
| Indeterminate.

(** A member declaration: type, name and default member initialiser. *)
Record member : Type := mk_member {
  m_type : ctype;
  m_name : string;
  m_init : option value
}.

Definition struct_decl : Type := list member.

Definition Particle_decl : struct_decl :=
  [ mk_member TVectorDouble "position" None;
    mk_member TVectorDouble "velocity" None;
    mk_member TVectorDouble "personal_best" None;
    mk_member TDouble "personal_best_fitness" None;
    mk_member TDouble "current_fitness" None ].

Definition PSOParameters_decl : struct_decl :=
  [ mk_member TInt "swarm_size" (Some (VInt 30));
    mk_member TInt "max_iterations" (Some (VInt 1000));
    mk_member TDouble "inertia_weight" (Some (VDouble 0.7298));
    mk_member TDouble "cognitive_coeff" (Some (VDouble 2.0));
    mk_member TDouble "social_coeff" (Some (VDouble 2.0));
    mk_member TDouble "velocity_clamp_factor" (Some (VDouble 0.2));
    mk_member TDouble "fitness_threshold" (Some (VDouble 1e-6));
    mk_member TInt "stagnation_iterations" (Some (VInt 100)) ].

Definition OptimisationResult_decl : struct_decl :=
  [ mk_member TVectorDouble "best_position" None;
    mk_member TDouble "best_fitness" None;
    mk_member TInt "iterations" None;
    mk_member TInt "function_evaluations" None;
    mk_member TVectorDouble "fitness_history" None;
    mk_member TBool "coverged" None;
    mk_member TString "convergence_reason" None ].

(** An object of a struct: its members by name, in declaration order. *)
Definition object : Type := list (string * value).

(** Default-initialisation of one member: the default member initialiser when
    there is one; otherwise a member of class type runs its default
    constructor (an empty vector, an empty string) and a scalar is left
    unwritten. *)
Definition default_init_member (mb : member) : value :=
  match m_init mb with
  | Some v => v
  | None =>
      match m_type mb with
      | TVectorDouble => VVector []
      | TString => VString EmptyString
      | TInt | TDouble | TBool => Indeterminate
      end
  end.

(** The implicitly defined default constructor of a struct. *)
Definition default_init (d : struct_decl) : object :=
  map (fun mb => (m_name mb, default_init_member mb)) d.

(** The declared type of the member called [name], if the struct has one. *)
Fixpoint member_type (d : struct_decl) (name : string) : option ctype :=
  match d with
  | [] => None
  | mb :: rest =>
      if String.eqb (m_name mb) name then Some (m_type mb)
      else member_type rest name
  end.

Fixpoint get_member (o : object) (name : string) : option value :=
  match o with
  | [] => None
  | (k, v) :: rest => if String.eqb k name then Some v else get_member rest name
  end.

(** Reading a member in an expression: lvalue-to-rvalue conversion.  It is
    defined only when the member exists and holds a value; on an
    indeterminate scalar the behaviour is undefined ([None]). *)
Definition read_member (o : object) (name : string) : option value :=
  match get_member o name with
  | Some Indeterminate => None
  | r => r
  end.

(** The structs as records, for objects whose members all hold values. *)
Record Particle : Type := mk_Particle {
  position : list Q;
  velocity : list Q;
  personal_best : list Q;
  personal_best_fitness : Q;
  current_fitness : Q
}.

Record PSOParameters : Type := mk_PSOParameters {
  swarm_size : Z;
  max_iterations : Z;
  inertia_weight : Q;
  cognitive_coeff : Q;
  social_coeff : Q;
  velocity_clamp_factor : Q;
  fitness_threshold : Q;
  stagnation_iterations : Z
}.

Record OptimisationResult : Type := mk_OptimisationResult {
  best_position : list Q;
  best_fitness : Q;
  iterations : Z;
  function_evaluations : Z;
  fitness_history : list Q;
  coverged : bool;
  convergence_reason : string
}.

(** A default-constructed [PSOParameters]: every member has a default member
    initialiser. *)
Definition PSOParameters_default : PSOParameters :=
  mk_PSOParameters 30 1000 0.7298 2.0 2.0 0.2 1e-6 100.

(** The members of a [PSOParameters] as an object of [PSOParameters_decl]. *)
Definition PSOParameters_object (p : PSOParameters) : object :=
  [ ("swarm_size", VInt (swarm_size p));
    ("max_iterations", VInt (max_iterations p));
    ("inertia_weight", VDouble (inertia_weight p));
    ("cognitive_coeff", VDouble (cognitive_coeff p));
    ("social_coeff", VDouble (social_coeff p));
    ("velocity_clamp_factor", VDouble (velocity_clamp_factor p));
    ("fitness_threshold", VDouble (fitness_threshold p));
    ("stagnation_iterations", VInt (stagnation_iterations p)) ].

Definition Qlt_bool (x y : Q) : bool := negb (Qle_bool y x).

(** [x] is within [tol] of [target]. *)
Definition approx (x target tol : Q) : Prop := Qabs (x - target) <= tol.

(** ** The optimiser

    The repository declares the data of the optimiser but has no code for the
    swarm, the update rule, boundary handling or the iteration loop.  The
    definitions of this section follow sections 4.1 to 4.4 of the
    specification, with the sequential-update variant of section 4.2; the
    random source is the [RandomGenerator] above.  Fitness values are
    rationals: a non-finite fitness is outside the model. *)

(** Modelled from the spec: the swarm of section 3, its particles and the
    swarm-wide best; the repository declares no such type. *)
Record Swarm : Type := mk_Swarm {
  particles : list Particle;
  global_best_position : list Q;
  global_best_fitness : Q
}.

(** Modelled from the spec: what the iteration loop carries from one
    iteration to the next (sections 4.2 to 4.4): the swarm, the random source,
    the counters, the fitness history and the number of consecutive
    iterations without improvement; the repository has no optimiser code. *)
Record RunState : Type := mk_RunState {
  swarm : Swarm;
  random : RandomGenerator;
  iterations_done : Z;
  evaluations : Z;
  history : list Q;
  stagnant : Z
}.

(** Modelled from the spec: the values of [convergence_reason] (sections 3
    and 5); the repository has no optimiser code. *)
Inductive stop_reason : Type :=
| threshold
| stagnation
| max_iterations_reached
| cancelled.

Section Optimizer.

Variable parameters : PSOParameters.
(** Dimensionality and the per-dimension bounds. *)
Variable D : nat.
Variables lower upper : list Q.
(** The objective function, an external collaborator. *)
Variable objective : list Q -> Q.
(** The cancellation signal, read between iterations: whether cancellation
    is requested once the given number of iterations is complete. *)
Variable cancel_requested : Z -> bool.

(** Modelled from the spec: the per-dimension velocity bound of section 4.1,
    [v_max[i] = velocity_clamp_factor * (upper[i] - lower[i])]; the
    repository has no optimiser code. *)
Definition v_max (i : nat) : Q :=
  velocity_clamp_factor parameters * (nth i upper 0 - nth i lower 0).

(** Modelled from the spec: [clamp(x, lo, hi)] of section 4.2; the
    repository has no optimiser code. *)
Definition clamp (x lo hi : Q) : Q :=
  if Qlt_bool x lo then lo else if Qlt_bool hi x then hi else x.

(** Modelled from the spec: the configuration check of section 4.1
    ([InvalidConfiguration] if [D == 0], any [lower[i] >= upper[i]],
    [swarm_size <= 0], or a bound vector whose length is not [D]); the
    repository has no optimiser code. *)
Definition valid_configuration : bool :=
  negb (Nat.eqb D 0)
  && Nat.eqb (List.length lower) D && Nat.eqb (List.length upper) D
  && Z.ltb 0 (swarm_size parameters)
  && forallb (fun i => Qlt_bool (nth i lower 0) (nth i upper 0)) (seq 0 D).

(** Modelled from the spec: the initial position and velocity of section
    4.1, one uniform draw each per dimension; the repository has no
    optimiser code. *)
Fixpoint init_dims (dims : list nat) (g : RandomGenerator)
  : list (Q * Q) * RandomGenerator :=
  match dims with
  | [] => ([], g)
  | i :: rest =>
      let (x, g1) := uniform g (nth i lower 0) (nth i upper 0) in
      let (v, g2) := uniform g1 (- v_max i) (v_max i) in
      let (xvs, g') := init_dims rest g2 in
      ((x, v) :: xvs, g')
  end.

(** Modelled from the spec: one particle of the initial swarm (section
    4.1), evaluated once, its personal best set to its start; the
    repository has no optimiser code. *)
Definition init_particle (g : RandomGenerator) : Particle * RandomGenerator :=
  let (xvs, g') := init_dims (seq 0 D) g in
  let pos := map fst xvs in
  let fit := objective pos in
  (mk_Particle pos (map snd xvs) pos fit fit, g').

(** Modelled from the spec: the [k] particles of the initial swarm (section
    4.1); the repository has no optimiser code. *)
Fixpoint init_particles (k : nat) (g : RandomGenerator)
  : list Particle * RandomGenerator :=
  match k with
  | O => ([], g)
  | S k' =>
      let (p, g1) := init_particle g in
      let (ps, g2) := init_particles k' g1 in
      (p :: ps, g2)
  end.

(** Modelled from the spec: the better of a best-so-far and a particle's
    current position, by strict improvement (sections 4.1 and 4.2); the
    repository has no optimiser code. *)
Definition better (best : list Q * Q) (p : Particle) : list Q * Q :=
  if Qlt_bool (current_fitness p) (snd best)
  then (position p, current_fitness p) else best.

(** Modelled from the spec: swarm initialisation (section 4.1), the global
    best being the best particle of the first evaluation pass; the
    repository has no optimiser code. *)
Definition init_swarm (g : RandomGenerator) : Swarm * RandomGenerator :=
  let (ps, g') := init_particles (Z.to_nat (swarm_size parameters)) g in
  let gb := match ps with
            | [] => ([], 0)
            | p :: rest => fold_left better rest (position p, current_fitness p)
            end in
  (mk_Swarm ps (fst gb) (snd gb), g').

(** Modelled from the spec: the velocity and position update of section
    4.2 for the dimensions [dims], two fresh draws per dimension, before
    boundary handling; the repository has no optimiser code. *)
Fixpoint update_dims (dims : list nat) (p : Particle) (gbest : list Q)
                     (g : RandomGenerator) : list (Q * Q) * RandomGenerator :=
  match dims with
  | [] => ([], g)
  | i :: rest =>
      let (r1, g1) := uniform g 0 1 in
      let (r2, g2) := uniform g1 0 1 in
      let x := nth i (position p) 0 in
      let v := inertia_weight parameters * nth i (velocity p) 0
               + cognitive_coeff parameters * r1 * (nth i (personal_best p) 0 - x)
               + social_coeff parameters * r2 * (nth i gbest 0 - x) in
      let v' := clamp v (- v_max i) (v_max i) in
      let (xvs, g') := update_dims rest p gbest g2 in
      ((x + v', v') :: xvs, g')
  end.

(** Modelled from the spec: the update rule of section 4.2 applied to every
    dimension of a particle; the repository has no optimiser code. *)
Definition update_rule (p : Particle) (gbest : list Q) (g : RandomGenerator)
  : Particle * RandomGenerator :=
  let (xvs, g') := update_dims (seq 0 D) p gbest g in
  (mk_Particle (map fst xvs) (map snd xvs) (personal_best p)
               (personal_best_fitness p) (current_fitness p), g').

(** Modelled from the spec: the boundary policy of section 4.2 in one
    dimension: a position outside [[lower[i], upper[i]]] is clamped to the
    nearest bound and the velocity component is zeroed; the repository has
    no optimiser code. *)
Definition boundary_dim (i : nat) (x v : Q) : Q * Q :=
  if Qlt_bool x (nth i lower 0) then (nth i lower 0, 0)
  else if Qlt_bool (nth i upper 0) x then (nth i upper 0, 0)
  else (x, v).

(** Modelled from the spec: boundary handling of a particle after the
    position update (section 4.2); the repository has no optimiser code. *)
Definition boundary_handling (p : Particle) : Particle :=
  let xvs := map (fun i => boundary_dim i (nth i (position p) 0)
                                          (nth i (velocity p) 0))
                 (seq 0 D) in
  mk_Particle (map fst xvs) (map snd xvs) (personal_best p)
              (personal_best_fitness p) (current_fitness p).

(** Modelled from the spec: evaluation after the position update and the
    personal-best update on strict improvement (section 4.2); the
    repository has no optimiser code. *)
Definition evaluate (p : Particle) : Particle :=
  let fit := objective (position p) in
  if Qlt_bool fit (personal_best_fitness p)
  then mk_Particle (position p) (velocity p) (position p) fit fit
  else mk_Particle (position p) (velocity p) (personal_best p)
                   (personal_best_fitness p) fit.

(** Modelled from the spec: what one iteration does to one particle
    (section 4.2): update rule, boundary handling, evaluation; the
    repository has no optimiser code. *)
Definition step_particle (p : Particle) (gbest : list Q) (g : RandomGenerator)
  : Particle * RandomGenerator :=
  let (q, g') := update_rule p gbest g in
  (evaluate (boundary_handling q), g').

(** Modelled from the spec: one sweep over the particles with
    sequential-update semantics (section 4.2): a global best improved by a
    particle is seen by the particles after it; the repository has no
    optimiser code. *)
Fixpoint sweep (ps : list Particle) (gb : list Q * Q) (g : RandomGenerator)
  : list Particle * (list Q * Q) * RandomGenerator :=
  match ps with
  | [] => ([], gb, g)
  | p :: rest =>
      let (p', g1) := step_particle p (fst gb) g in
      let '(rest', gb', g2) := sweep rest (better gb p') g1 in
      (p' :: rest', gb', g2)
  end.

(** Modelled from the spec: the tolerance of the stagnation test (section
    4.3); the repository has no optimiser code. *)
Definition stagnation_epsilon : Q := 1e-12.

(** Modelled from the spec: one completed iteration (sections 4.2 and 4.3):
    the sweep, the counters, the fitness history and the count of
    consecutive iterations without improvement; the repository has no
    optimiser code. *)
Definition iteration (st : RunState) : RunState :=
  let sw := swarm st in
  let '(ps, gb, g) :=
    sweep (particles sw) (global_best_position sw, global_best_fitness sw)
          (random st) in
  let improved :=
    Qlt_bool stagnation_epsilon (global_best_fitness sw - snd gb) in
  mk_RunState (mk_Swarm ps (fst gb) (snd gb)) g
              (iterations_done st + 1)
              (evaluations st + Z.of_nat (List.length ps))
              (history st ++ [snd gb])
              (if improved then 0%Z else (stagnant st + 1)%Z).

(** Modelled from the spec: the convergence monitor of section 4.3, in its
    priority order; the repository has no optimiser code. *)
Definition monitor (st : RunState) : option stop_reason :=
  if Qle_bool (global_best_fitness (swarm st)) (fitness_threshold parameters)
  then Some threshold
  else if Z.leb (stagnation_iterations parameters) (stagnant st)
  then Some stagnation
  else if Z.eqb (iterations_done st) (max_iterations parameters)
  then Some max_iterations_reached
  else None.

(** Modelled from the spec: the iteration loop (sections 4.3 and 5), at
    most [fuel] iterations: the states after each completed iteration, in
    order, and the reason the loop stopped; the repository has no optimiser
    code. *)
Fixpoint iterate (fuel : nat) (st : RunState) : list RunState * stop_reason :=
  match fuel with
  | O => ([], max_iterations_reached)
  | S fuel' =>
      if cancel_requested (iterations_done st) then ([], cancelled)
      else
        let st' := iteration st in
        match monitor st' with
        | Some reason => ([st'], reason)
        | None =>
            let (trace, reason) := iterate fuel' st' in
            (st' :: trace, reason)
        end
  end.

(** Modelled from the spec: the state after swarm initialisation (section
    4.1), one evaluation per particle; the repository has no optimiser
    code. *)
Definition init_state (g : RandomGenerator) : RunState :=
  let (sw, g') := init_swarm g in
  mk_RunState sw g' 0 (Z.of_nat (List.length (particles sw))) [] 0.

(** Modelled from the spec: the states a run goes through after each of
    its iterations, or [InvalidConfiguration] (sections 4.1 and 6); the
    repository has no optimiser code. *)
Definition run_trace (g : RandomGenerator)
  : outcome (list RunState * stop_reason) :=
  if valid_configuration
  then Returns (iterate (Z.to_nat (max_iterations parameters)) (init_state g))
  else Raises InvalidConfiguration.

(** Modelled from the spec: the tag of [convergence_reason] for each reason
    (section 3); the repository has no optimiser code. *)
Definition reason_tag (reason : stop_reason) : string :=
  match reason with
  | threshold => "threshold"
  | stagnation => "stagnation"
  | max_iterations_reached => "max_iterations"
  | cancelled => "cancelled"
  end.

(** Modelled from the spec: result assembly (section 4.4) from the last
    state of the run; the repository has no optimiser code. *)
Definition assemble (st : RunState) (reason : stop_reason) : OptimisationResult :=
  mk_OptimisationResult
    (global_best_position (swarm st)) (global_best_fitness (swarm st))
    (iterations_done st) (evaluations st) (history st)
    (match reason with
     | threshold | stagnation => true
     | max_iterations_reached | cancelled => false
     end)
    (reason_tag reason).

(** Modelled from the spec: the entry point [run] of section 6; the
    repository has no optimiser code. *)
Definition run (g : RandomGenerator) : outcome OptimisationResult :=
  match run_trace g with
  | Returns (trace, reason) => Returns (assemble (last trace (init_state g)) reason)
  | Raises e => Raises e
  end.

(** Every position component of [p] lies within its bounds. *)
Definition in_bounds (p : Particle) : Prop :=
  forall i : nat, (i < D)%nat ->
    nth i lower 0 <= nth i (position p) 0 <= nth i upper 0.

(** [p'] is [p] one iteration later: for some global best and generator
    state, the update rule takes [p] to a tentative particle [q], and in
    every dimension [p'] holds what boundary handling makes of [q]: a
    component of [q] below the lower bound or above the upper bound is
    moved to that bound with velocity zero, any other is kept with its
    velocity. *)
Definition moved_from (p p' : Particle) : Prop :=
  exists (gbest : list Q) (g : RandomGenerator),
    let q := fst (update_rule p gbest g) in
    forall i : nat, (i < D)%nat ->
      let x := nth i (position q) 0 in
      (x < nth i lower 0 ->
         nth i (position p') 0 = nth i lower 0 /\ nth i (velocity p') 0 = 0)
      /\ (nth i upper 0 < x ->
         nth i (position p') 0 = nth i upper 0 /\ nth i (velocity p') 0 = 0)
      /\ (nth i lower 0 <= x <= nth i upper 0 ->
         nth i (position p') 0 = x
         /\ nth i (velocity p') 0 = nth i (velocity q) 0).

End Optimizer.

(** The instances a program can hold: built by one of the two constructors,
    then used through [uniform] and [setSeed]. *)
Inductive reachable : RandomGenerator -> Prop :=
| reach_default (entropy ticks : Z) :
    reachable (RandomGenerator_default entropy ticks)
| reach_seeded (seed : Z) : reachable (RandomGenerator_seeded seed)
| reach_uniform (rg : RandomGenerator) (min max : Q) :
    reachable rg -> reachable (snd (uniform rg min max))
| reach_setSeed (rg : RandomGenerator) (seed : Z) :
    reachable rg -> reachable (setSeed rg seed).

(** The first outputs of two instances differ in value. *)
Definition first_outputs_differ (rg1 rg2 : RandomGenerator) : Prop :=
  ~ fst (uniform rg1 0 1) == fst (uniform rg2 0 1).

(** The objective of the specification's scenario A: the sum of squares. *)
Definition sum_of_squares (x : list Q) : Q :=
  fold_right (fun a acc => a * a + acc) 0 x.

(** A run that is never cancelled. *)
Definition never_cancelled (completed : Z) : bool := false.


(** ** The range of binary64

    [uniform] above computes in exact arithmetic.  The definitions below
    compute the same formula over doubles with their range: a result whose
    magnitude reaches the overflow threshold is an infinity.  Rounding to the
    nearest double is not modelled. *)

(** [std::numeric_limits<double>::max()]: (2^53 - 1) * 2^971. *)
Definition DBL_MAX : Q := inject_Z ((2 ^ 53 - 1) * 2 ^ 971).

(** Under round-to-nearest an exact result overflows when its magnitude is
    at least [DBL_MAX] plus half a unit in the last place: 2^1024 - 2^970. *)
Definition overflow_threshold : Q := inject_Z (2 ^ 1024 - 2 ^ 970).

(** A double: a finite number, an infinity with its sign, or a NaN. *)
Inductive double : Type :=
| Finite (q : Q)
| Infinity (negative : bool)
| NaN.

(** The double an exact result becomes. *)
Definition round_overflow (q : Q) : double :=
  if Qle_bool overflow_threshold q then Infinity false
  else if Qle_bool q (- overflow_threshold) then Infinity true
  else Finite q.

Definition double_opp (x : double) : double :=
  match x with
  | Finite q => Finite (- q)
  | Infinity negative => Infinity (negb negative)
  | NaN => NaN
  end.

Definition double_add (x y : double) : double :=
  match x, y with
  | NaN, _ | _, NaN => NaN
  | Infinity s1, Infinity s2 => if Bool.eqb s1 s2 then Infinity s1 else NaN
  | Infinity s, Finite _ | Finite _, Infinity s => Infinity s
  | Finite a, Finite b => round_overflow (a + b)
  end.

Definition double_sub (x y : double) : double := double_add x (double_opp y).

Definition double_mul (x y : double) : double :=
  match x, y with
  | NaN, _ | _, NaN => NaN
  | Infinity s1, Infinity s2 => Infinity (xorb s1 s2)
  | Infinity s, Finite q | Finite q, Infinity s =>
      if Qeq_bool q 0 then NaN else Infinity (xorb s (Qlt_bool q 0))
  | Finite a, Finite b => round_overflow (a * b)
  end.

(** [double RandomGenerator::uniform(double min, double max)] with the range
    of binary64: the parameters are stored, then the distribution returns
    [(u * (b - a)) + a] for the canonical draw [u]. *)
Definition uniform_binary64 (rg : RandomGenerator) (min max : Q)
  : double * RandomGenerator :=
  let p := mk_param min max in
  let (u, g') := generate_canonical (generator_ rg) in
  (double_add
     (double_mul (Finite u)
                 (double_sub (Finite (param_b p)) (Finite (param_a p))))
     (Finite (param_a p)),
   mk_RandomGenerator g' p).

(** How the execution of a call ends: the call ends, with a value or an
    error, or the process is aborted. *)
Inductive execution (A : Type) : Type :=
| Ends (o : outcome A)
| Aborted.
Arguments Ends {A} o.
Arguments Aborted {A}.

(** A call of [uniform] as its caller observes it.  [uniform] checks nothing
    and throws nothing.  The constructor of the distribution's [param_type]
    has the precondition [a <= b]: libstdc++ built with [_GLIBCXX_ASSERTIONS]
    aborts the process when it is violated, and computes the formula
    unchecked otherwise. *)
Definition call_uniform_binary64 (glibcxx_assertions : bool)
    (rg : RandomGenerator) (min max : Q)
  : execution (double * RandomGenerator) :=
  if glibcxx_assertions && Qlt_bool max min then Aborted
  else Ends (Returns (uniform_binary64 rg min max)).

(** A sequence of [uniform] calls on one instance, with the range of
    binary64. *)
Fixpoint uniform_binary64_calls (rg : RandomGenerator) (calls : list (Q * Q))
  : list double * RandomGenerator :=
  match calls with
  | [] => ([], rg)
  | (min, max) :: rest =>
      let (v, rg1) := uniform_binary64 rg min max in
      let (vs, rg2) := uniform_binary64_calls rg1 rest in
      (v :: vs, rg2)
  end.

(** A finite double. *)
Definition finite_double (q : Q) : Prop := Qabs q <= DBL_MAX.

(** The arguments [(min, max)] of a call that meets the preconditions of
    [std::uniform_real_distribution]: finite bounds, [min <= max], and
    [max - min] no larger than the largest finite double. *)
Definition admissible_range (call : Q * Q) : Prop :=
  finite_double (fst call) /\ finite_double (snd call)
  /\ fst call <= snd call /\ snd call - fst call <= DBL_MAX.

(** The output [v] of the call [(min, max)] is a finite number of the
    call's range. *)
Definition double_within (call : Q * Q) (v : double) : Prop :=
  match v with
  | Finite q => fst call <= q <= snd call
  | Infinity _ | NaN => False
  end.

(** ** Initialisation forms of the structs *)

(** How an object without an initialiser comes to exist.
    Default-initialisation: [T x;] in automatic storage, [new T].
    Value-initialisation: [T()], [T{}], [new T()], an element of
    [std::vector<T>(n)]; an object in static storage is zero-initialised
    first as well. *)
Inductive initialisation : Type :=
| default_initialisation
| value_initialisation.

(** Zero-initialisation of a member of type [ty]. *)
Definition zero_value (ty : ctype) : value :=
  match ty with
  | TInt => VInt 0
  | TDouble => VDouble 0
  | TBool => VBool false
  | TString => VString EmptyString
  | TVectorDouble => VVector []
  end.

(** Value-initialisation of one member: the object is zero-initialised,
    then the implicit default constructor runs: it applies a default member
    initialiser and default-constructs a vector or a string, and leaves a
    scalar without initialiser at its zero. *)
Definition value_init_member (mb : member) : value :=
  match m_init mb with
  | Some v => v
  | None => zero_value (m_type mb)
  end.

Definition value_init (d : struct_decl) : object :=
  map (fun mb => (m_name mb, value_init_member mb)) d.

(** An object of struct [d] initialised in the given form. *)
Definition initialise (form : initialisation) (d : struct_decl) : object :=
  match form with
  | default_initialisation => default_init d
  | value_initialisation => value_init d
  end.

(** * Properties *)

(** ** The engine produces 32-bit words *)

Module MT19937_facts.
Import MT19937.
Local Open Scope Z_scope.

(** A word is a non-negative number whose binary logarithm is below [w]. *)
Lemma word_iff_log2 (x : Z) : word x <-> 0 <= x /\ Z.log2 x < w.
Proof.
  unfold word. destruct (Z.eq_dec x 0) as [-> | Hnz].
  - cbv. intuition congruence.
  - split; intros [H0 H1]; (split; [exact H0 |]);
      apply (Z.log2_lt_pow2 x w); solve [lia | exact H1].
Qed.

Lemma word_lxor (x y : Z) : word x -> word y -> word (Z.lxor x y).
Proof.
  rewrite !word_iff_log2. intros [Hx0 Hx] [Hy0 Hy]. split.
  - apply Z.lxor_nonneg. tauto.
  - pose proof (Z.log2_lxor x y Hx0 Hy0). lia.
Qed.

Lemma word_lor (x y : Z) : word x -> word y -> word (Z.lor x y).
Proof.
  rewrite !word_iff_log2. intros [Hx0 Hx] [Hy0 Hy]. split.
  - apply Z.lor_nonneg. tauto.
  - rewrite (Z.log2_lor x y Hx0 Hy0). lia.
Qed.

(** Masking any non-negative number with a word gives a word. *)
Lemma word_land_mask (x mask : Z) : 0 <= x -> word mask -> word (Z.land x mask).
Proof.
  rewrite !word_iff_log2. intros Hx0 [Hm0 Hm]. split.
  - apply Z.land_nonneg. tauto.
  - pose proof (Z.log2_land x mask Hx0 Hm0). lia.
Qed.

Lemma word_shiftr (x k : Z) : 0 <= k -> word x -> word (Z.shiftr x k).
Proof.
  intros Hk [Hx0 Hx]. unfold word. rewrite Z.shiftr_div_pow2 by exact Hk.
  assert (Hp : 0 < 2 ^ k) by (apply Z.pow_pos_nonneg; lia).
  split.
  - apply Z.div_pos; lia.
  - apply Z.le_lt_trans with x; [| exact Hx].
    apply Z.div_le_upper_bound; [exact Hp |]. nia.
Qed.

Lemma word_nonneg (x : Z) : word x -> 0 <= x.
Proof. intros [H _]. exact H. Qed.

Lemma shiftl_word_nonneg (x k : Z) : word x -> 0 <= Z.shiftl x k.
Proof. intros [H _]. apply Z.shiftl_nonneg. exact H. Qed.

Lemma shiftr_word_nonneg (x k : Z) : word x -> 0 <= Z.shiftr x k.
Proof. intros [H _]. apply Z.shiftr_nonneg. exact H. Qed.

(** The constants of the engine are words. *)
Ltac word_constant := cbv; intuition congruence.

Lemma word_0 : word 0.
Proof. word_constant. Qed.

Lemma word_a : word a.
Proof. word_constant. Qed.

Lemma word_b : word b.
Proof. word_constant. Qed.

Lemma word_c : word c.
Proof. word_constant. Qed.

Lemma word_d : word d.
Proof. word_constant. Qed.

Lemma word_upper_mask : word upper_mask.
Proof. word_constant. Qed.

Lemma word_lower_mask : word lower_mask.
Proof. word_constant. Qed.

Lemma word_nth (st : state) (k : nat) : wf st -> word (nth k st 0).
Proof.
  intros Hst. destruct (nth_in_or_default k st 0) as [Hin | ->].
  - exact (proj1 (Forall_forall word st) Hst _ Hin).
  - exact word_0.
Qed.

Create HintDb mt_words.
#[local] Hint Resolve word_lxor word_lor word_land_mask word_nth word_0 word_a
  word_b word_c word_d word_upper_mask word_lower_mask word_nonneg
  shiftl_word_nonneg shiftr_word_nonneg : mt_words.
#[local] Hint Extern 2 (word (Z.shiftr _ _)) =>
  (apply word_shiftr; [discriminate |]) : mt_words.

Lemma word_temper (x : Z) : word x -> word (temper x).
Proof. intros Hx. unfold temper. cbv zeta. auto 12 with mt_words. Qed.

(** The twist mask [a * (y land 1)] is 0 or [a]. *)
Lemma word_alpha (y : Z) : word (a * Z.land y 1).
Proof.
  change 1 with (Z.ones 1). rewrite Z.land_ones by lia. change (2 ^ 1) with 2.
  assert (Hm : y mod 2 = 0 \/ y mod 2 = 1)
    by (pose proof (Z.mod_pos_bound y 2); lia).
  destruct Hm as [-> | ->]; word_constant.
Qed.

Lemma seed_words_wf (k : nat) : forall i prev : Z, wf (seed_words k i prev).
Proof.
  induction k as [| k IH]; intros i prev; cbn [seed_words].
  - constructor.
  - constructor; [| apply IH].
    apply Z.mod_pos_bound. reflexivity.
Qed.

Lemma seed_wf (value : Z) : wf (seed value).
Proof.
  unfold seed. constructor.
  - apply Z.mod_pos_bound. reflexivity.
  - apply seed_words_wf.
Qed.

(** A call of the engine returns a word and leaves a state of words. *)
Lemma next_wf (st : state) :
  wf st -> word (fst (next st)) /\ wf (snd (next st)).
Proof.
  intros Hst. unfold next. cbv zeta. cbn [fst snd].
  pose proof word_alpha as Halpha.
  assert (Hx : forall y : Z, word y ->
            word (Z.lxor (Z.lxor (nth m st 0) (Z.shiftr y 1)) (a * Z.land y 1)))
    by (intros y Hy; auto 6 with mt_words).
  assert (Hy : word (Z.lor (Z.land (nth 0 st 0) upper_mask)
                           (Z.land (nth 1 st 0) lower_mask)))
    by auto 6 with mt_words.
  split.
  - apply word_temper, Hx, Hy.
  - apply Forall_app. split.
    + destruct st as [| x0 st']; [constructor |].
      exact (Forall_inv_tail Hst).
    + constructor; [apply Hx, Hy | constructor].
Qed.

(** The first two outputs of [mt19937(42)]. *)
Lemma mt19937_seed_42 :
  let (z1, st1) := next (seed 42) in
  let (z2, _) := next st1 in
  (z1, z2) = (1608637542, 3421126067).
Proof. vm_compute. reflexivity. Qed.

(** The conformance value of the C++ standard: the 10000th output of a
    default-constructed [mt19937] (seed 5489) is 4123659995. *)
Lemma mt19937_conformance :
  fst (next (discard (Z.to_nat 9999) (seed 5489))) = 4123659995.
Proof. vm_compute. reflexivity. Qed.

End MT19937_facts.

(** ** The distribution and the generator *)

Lemma urng_range_pos : 0 < urng_range.
Proof. reflexivity. Qed.

Lemma nextafter_1_0_range : 0 <= nextafter_1_0 /\ nextafter_1_0 < 1.
Proof. split; [discriminate | reflexivity]. Qed.

Lemma inject_Z_word_nonneg (z : Z) : MT19937.word z -> 0 <= inject_Z (z - MT19937.min).
Proof.
  intros [Hz _]. change 0 with (inject_Z 0). rewrite <- Zle_Qle.
  unfold MT19937.min. lia.
Qed.

(** The loop keeps the sum non-negative, the weight positive and the engine
    well formed. *)
Lemma canonical_loop_inv (k : nat) :
  forall (g : MT19937.state) (sum tmp : Q),
    MT19937.wf g -> 0 <= sum -> 0 < tmp ->
    let '(sum', tmp', g') := canonical_loop k g sum tmp in
    0 <= sum' /\ 0 < tmp' /\ MT19937.wf g'.
Proof.
  induction k as [| k IH]; intros g sum tmp Hg Hsum Htmp; cbn [canonical_loop].
  - auto.
  - pose proof (MT19937_facts.next_wf g Hg) as [Hz Hg1].
    destruct (MT19937.next g) as [z g1].
    cbn [fst snd] in Hz, Hg1.
    apply IH; [exact Hg1 | |].
    + pose proof (inject_Z_word_nonneg z Hz) as Hq.
      pose proof (Qmult_le_0_compat _ _ Hq (Qlt_le_weak _ _ Htmp)). lra.
    + pose proof urng_range_pos.
      apply Qmult_lt_0_compat; assumption.
Qed.

Lemma generate_canonical_range (g : MT19937.state) :
  MT19937.wf g ->
  0 <= fst (generate_canonical g) /\ fst (generate_canonical g) < 1
  /\ MT19937.wf (snd (generate_canonical g)).
Proof.
  intros Hg. unfold generate_canonical.
  pose proof (canonical_loop_inv 2 g 0 1 Hg (Qle_refl 0) eq_refl) as Hinv.
  destruct (canonical_loop 2 g 0 1) as [[sum tmp] g'].
  destruct Hinv as (Hsum & Htmp & Hg').
  destruct (Qle_bool 1 (sum / tmp)) eqn:Hclamp; simpl.
  - pose proof nextafter_1_0_range. tauto.
  - repeat split; [| | exact Hg'].
    + apply Qle_shift_div_l; [exact Htmp | lra].
    + apply Qnot_le_lt. intros Hle.
      apply Qle_bool_iff in Hle. congruence.
Qed.

Lemma uniform_value (rg : RandomGenerator) (min max : Q) :
  fst (uniform rg min max)
  = fst (generate_canonical (generator_ rg)) * (max - min) + min.
Proof.
  unfold uniform, draw. destruct (generate_canonical (generator_ rg)).
  reflexivity.
Qed.

Lemma uniform_generator (rg : RandomGenerator) (min max : Q) :
  generator_ (snd (uniform rg min max))
  = snd (generate_canonical (generator_ rg)).
Proof.
  unfold uniform, draw. destruct (generate_canonical (generator_ rg)).
  reflexivity.
Qed.

Lemma reachable_wf (rg : RandomGenerator) :
  reachable rg -> MT19937.wf (generator_ rg).
Proof.
  induction 1 as [e t | s | rg min max _ IH | rg s _ _].
  - apply MT19937_facts.seed_wf.
  - apply MT19937_facts.seed_wf.
  - rewrite uniform_generator.
    apply generate_canonical_range. exact IH.
  - apply MT19937_facts.seed_wf.
Qed.

Lemma uniform_in_range_wf (rg : RandomGenerator) (min max : Q) :
  MT19937.wf (generator_ rg) -> min <= max ->
  min <= fst (uniform rg min max) <= max.
Proof.
  intros Hwf Hle. rewrite uniform_value.
  destruct (generate_canonical_range _ Hwf) as (H0 & H1 & _).
  set (x := fst (generate_canonical (generator_ rg))) in *.
  assert (Hd : 0 <= max - min) by lra.
  pose proof (Qmult_le_0_compat _ _ H0 Hd) as Hlo.
  assert (Hhi : x * (max - min) <= 1 * (max - min)).
  { apply Qmult_le_compat_r; [apply Qlt_le_weak; exact H1 | exact Hd]. }
  split; lra.
Qed.

(** Outputs of a call sequence depend on the engine only, not on the
    parameters the distribution was left with. *)
Lemma uniform_calls_engine (calls : list (Q * Q)) :
  forall rg1 rg2 : RandomGenerator,
    generator_ rg1 = generator_ rg2 ->
    fst (uniform_calls rg1 calls) = fst (uniform_calls rg2 calls).
Proof.
  destruct calls as [| [min max] rest]; intros rg1 rg2 Hgen;
    cbn [uniform_calls].
  - reflexivity.
  - assert (Hv : uniform rg1 min max = uniform rg2 min max).
    { unfold uniform. rewrite Hgen. reflexivity. }
    rewrite Hv. destruct (uniform rg2 min max) as [v rg'].
    reflexivity.
Qed.

Lemma uniform_returns (rg : RandomGenerator) (min max : Q) :
  call_uniform rg min max
  = Returns (fst (uniform rg min max), snd (uniform rg min max)).
Proof. unfold call_uniform. destruct (uniform rg min max). reflexivity. Qed.

(** C3: two instances seeded with the same [s], by the seeded constructor or
    by [setSeed], return the same outputs for the same sequence of [uniform]
    calls. *)
Theorem same_seed_same_sequence (s : Z) (rg1 rg2 : RandomGenerator)
    (calls : list (Q * Q)) :
  seeded_with s rg1 -> seeded_with s rg2 ->
  fst (uniform_calls rg1 calls) = fst (uniform_calls rg2 calls).
Proof.
  intros H1 H2. apply uniform_calls_engine.
  destruct H1, H2; reflexivity.
Qed.

Lemma same_seed_same_sequence_witness :
  seeded_with 12345 (RandomGenerator_seeded 12345)
  /\ seeded_with 12345 (setSeed (RandomGenerator_seeded 54321) 12345)
  /\ fst (uniform_calls (RandomGenerator_seeded 12345) (repeat (0, 1) 10))
     = fst (uniform_calls (setSeed (RandomGenerator_seeded 54321) 12345)
                          (repeat (0, 1) 10)).
Proof.
  split; [apply seeded_by_constructor | split; [apply seeded_by_setSeed |]].
  apply (same_seed_same_sequence 12345).
  - apply seeded_by_constructor.
  - apply seeded_by_setSeed.
Defined.

(** C8: whatever the instance and its history of [uniform] calls, after
    [setSeed(s)] the outputs of any further call sequence are those of a
    freshly constructed [RandomGenerator(s)].  [setSeed] keeps the parameters
    the earlier calls left in the distribution, and they have no effect. *)
Theorem setSeed_like_fresh (s : Z) (rg0 : RandomGenerator)
    (history calls : list (Q * Q)) :
  let rg := snd (uniform_calls rg0 history) in
  distribution_ (setSeed rg s) = distribution_ rg
  /\ fst (uniform_calls (setSeed rg s) calls)
     = fst (uniform_calls (RandomGenerator_seeded s) calls).
Proof.
  intros rg. split; [reflexivity |].
  apply uniform_calls_engine. reflexivity.
Qed.

Lemma degenerate_value (x a : Q) : x * (a - a) + a == a.
Proof. ring. Qed.

(** C10: for every [a], [uniform(a, a)] returns, and returns [a]. *)
Theorem uniform_degenerate_range (rg : RandomGenerator) (a : Q) :
  exists (v : Q) (rg' : RandomGenerator),
    call_uniform rg a a = Returns (v, rg') /\ v == a.
Proof.
  rewrite uniform_returns. eexists; eexists. split; [reflexivity |].
  rewrite uniform_value. apply degenerate_value.
Qed.

(** C7: an instance built without a seed is seeded from the two readings of
    the environment, the random device and the clock, combined by xor; the
    outputs depend on either reading, so two such instances need not produce
    the same sequence. *)
Theorem unseeded_not_reproducible :
  (forall entropy ticks : Z,
     RandomGenerator_default entropy ticks
     = RandomGenerator_seeded (Z.lxor entropy ticks))
  /\ (exists entropy ticks1 ticks2 : Z,
        first_outputs_differ (RandomGenerator_default entropy ticks1)
                             (RandomGenerator_default entropy ticks2))
  /\ (exists entropy1 entropy2 ticks : Z,
        first_outputs_differ (RandomGenerator_default entropy1 ticks)
                             (RandomGenerator_default entropy2 ticks)).
Proof.
  split; [reflexivity | split].
  - exists 7%Z, 1000%Z, 1001%Z. unfold first_outputs_differ, Qeq.
    vm_compute. discriminate.
  - exists 7%Z, 8%Z, 1000%Z. unfold first_outputs_differ, Qeq.
    vm_compute. discriminate.
Qed.

(** ** The structs *)

(** C2: the struct [OptimisationResult] has no member called [converged];
    its boolean member is spelled [coverged]. *)
Theorem OptimisationResult_flag_name :
  member_type OptimisationResult_decl "converged" = None
  /\ member_type OptimisationResult_decl "coverged" = Some TBool
  /\ (forall name : string,
        member_type OptimisationResult_decl name = Some TBool ->
        name = "coverged").
Proof.
  split; [reflexivity | split; [reflexivity |]].
  intros name. unfold OptimisationResult_decl, member_type, m_name, m_type.
  repeat match goal with
         | |- context [String.eqb ?k name] =>
             destruct (String.eqb_spec k name) as [<- | _]
         end; intros H; try discriminate H; reflexivity.
Qed.

(** C5: the default [PSOParameters] are the default member initialisers of
    the struct, and they satisfy the constraints on the fields:
    [swarm_size > 0], [max_iterations > 0], [velocity_clamp_factor] in
    [(0, 1]], [inertia_weight] within 0.05 of 0.7, both coefficients equal
    to 2. *)
Theorem PSOParameters_default_valid :
  PSOParameters_object PSOParameters_default = default_init PSOParameters_decl
  /\ (0 < swarm_size PSOParameters_default)%Z
  /\ (0 < max_iterations PSOParameters_default)%Z
  /\ 0 < velocity_clamp_factor PSOParameters_default <= 1
  /\ approx (inertia_weight PSOParameters_default) 0.7 0.05
  /\ approx (cognitive_coeff PSOParameters_default) 2 0
  /\ approx (social_coeff PSOParameters_default) 2 0.
Proof.
  split; [reflexivity |].
  unfold approx. cbn.
  repeat split; try reflexivity; discriminate.
Qed.

(** ** Boundary handling in the optimiser *)

Lemma Qlt_bool_iff (x y : Q) : Qlt_bool x y = true <-> x < y.
Proof.
  unfold Qlt_bool. rewrite negb_true_iff. split.
  - intros H. apply Qnot_le_lt. intros Hle.
    apply Qle_bool_iff in Hle. congruence.
  - intros H. destruct (Qle_bool y x) eqn:E; [| reflexivity].
    apply Qle_bool_iff in E. exfalso. exact (Qlt_not_le _ _ H E).
Qed.

Lemma Qlt_bool_false_iff (x y : Q) : Qlt_bool x y = false <-> y <= x.
Proof.
  unfold Qlt_bool. rewrite negb_false_iff. apply Qle_bool_iff.
Qed.

Lemma nth_map_seq {A : Type} (f : nat -> A) (len i : nat) (default : A) :
  (i < len)%nat -> nth i (map f (seq 0 len)) default = f i.
Proof.
  intros Hi. rewrite (nth_indep _ default (f 0%nat)).
  - rewrite map_nth. rewrite seq_nth by exact Hi. reflexivity.
  - rewrite length_map, length_seq. exact Hi.
Qed.

Section OptimizerFacts.

Variable parameters : PSOParameters.
Variable D : nat.
Variables lower upper : list Q.
Variable objective : list Q -> Q.
Variable cancel_requested : Z -> bool.

Local Abbreviation step := (step_particle parameters D lower upper objective).
Local Abbreviation moved := (moved_from parameters D lower upper).

Lemma valid_configuration_bounds :
  valid_configuration parameters D lower upper = true ->
  forall i : nat, (i < D)%nat -> nth i lower 0 < nth i upper 0.
Proof.
  unfold valid_configuration. intros Hvalid i Hi.
  apply andb_prop in Hvalid. destruct Hvalid as [_ Hall].
  rewrite forallb_forall in Hall. apply Qlt_bool_iff. apply Hall.
  apply in_seq. lia.
Qed.

(** What boundary handling makes of dimension [i]. *)
Lemma boundary_handling_nth (q : Particle) (i : nat) :
  (i < D)%nat ->
  let q' := boundary_handling D lower upper q in
  (nth i (position q') 0, nth i (velocity q') 0)
  = boundary_dim lower upper i (nth i (position q) 0) (nth i (velocity q) 0).
Proof.
  intros Hi. unfold boundary_handling. cbn [position velocity].
  rewrite !map_map.
  rewrite (nth_map_seq (fun j => fst (boundary_dim lower upper j _ _)) D i 0 Hi).
  rewrite (nth_map_seq (fun j => snd (boundary_dim lower upper j _ _)) D i 0 Hi).
  symmetry. apply surjective_pairing.
Qed.

Lemma evaluate_position (p : Particle) :
  position (evaluate objective p) = position p
  /\ velocity (evaluate objective p) = velocity p.
Proof.
  unfold evaluate.
  destruct (Qlt_bool (objective (position p)) (personal_best_fitness p));
    split; reflexivity.
Qed.

(** One dimension of boundary handling, by cases on the tentative position. *)
Lemma boundary_dim_cases (i : nat) (x v : Q) :
  nth i lower 0 <= nth i upper 0 ->
  let (x', v') := boundary_dim lower upper i x v in
  nth i lower 0 <= x' <= nth i upper 0
  /\ (x < nth i lower 0 -> x' = nth i lower 0 /\ v' = 0)
  /\ (nth i upper 0 < x -> x' = nth i upper 0 /\ v' = 0)
  /\ (nth i lower 0 <= x <= nth i upper 0 -> x' = x /\ v' = v).
Proof.
  intros Hlu. unfold boundary_dim.
  destruct (Qlt_bool x (nth i lower 0)) eqn:Hlow;
    [| destruct (Qlt_bool (nth i upper 0) x) eqn:Hup].
  - apply Qlt_bool_iff in Hlow. repeat split; try lra; intros; exfalso; lra.
  - apply Qlt_bool_false_iff in Hlow. apply Qlt_bool_iff in Hup.
    repeat split; try lra; intros; exfalso; lra.
  - apply Qlt_bool_false_iff in Hlow. apply Qlt_bool_false_iff in Hup.
    repeat split; try lra; intros; exfalso; lra.
Qed.

(** A particle after its step is within bounds and is the boundary handling
    of the update rule's result. *)
Lemma step_particle_moved (p : Particle) (gbest : list Q) (g : RandomGenerator) :
  valid_configuration parameters D lower upper = true ->
  in_bounds D lower upper (fst (step p gbest g))
  /\ moved p (fst (step p gbest g)).
Proof.
  intros Hvalid.
  assert (Hcases : forall i : nat, (i < D)%nat ->
    let q := fst (update_rule parameters D lower upper p gbest g) in
    let p' := fst (step p gbest g) in
    let x := nth i (position q) 0 in
    (nth i lower 0 <= nth i (position p') 0 <= nth i upper 0)
    /\ (x < nth i lower 0 ->
          nth i (position p') 0 = nth i lower 0 /\ nth i (velocity p') 0 = 0)
    /\ (nth i upper 0 < x ->
          nth i (position p') 0 = nth i upper 0 /\ nth i (velocity p') 0 = 0)
    /\ (nth i lower 0 <= x <= nth i upper 0 ->
          nth i (position p') 0 = x
          /\ nth i (velocity p') 0 = nth i (velocity q) 0)).
  { intros i Hi. unfold step_particle.
    destruct (update_rule parameters D lower upper p gbest g) as [q g'].
    cbn [fst]. cbv zeta.
    destruct (evaluate_position (boundary_handling D lower upper q)) as [-> ->].
    pose proof (boundary_handling_nth q i Hi) as Hnth. cbv zeta in Hnth.
    pose proof (boundary_dim_cases i (nth i (position q) 0)
                  (nth i (velocity q) 0)
                  (Qlt_le_weak _ _ (valid_configuration_bounds Hvalid i Hi)))
      as Hdim.
    rewrite <- Hnth in Hdim. exact Hdim. }
  split.
  - intros i Hi. exact (proj1 (Hcases i Hi)).
  - exists gbest, g. cbv zeta. intros i Hi. exact (proj2 (Hcases i Hi)).
Qed.

(** A sweep steps every particle, in order. *)
Lemma sweep_moved (ps : list Particle) :
  valid_configuration parameters D lower upper = true ->
  forall (gb : list Q * Q) (g : RandomGenerator),
    let ps' := fst (fst (sweep parameters D lower upper objective ps gb g)) in
    Forall (in_bounds D lower upper) ps' /\ Forall2 moved ps ps'.
Proof.
  intros Hvalid. induction ps as [| p rest IH]; intros gb g; cbn [sweep].
  - split; constructor.
  - pose proof (step_particle_moved p (fst gb) g Hvalid) as [Hin Hmoved].
    destruct (step_particle parameters D lower upper objective p (fst gb) g)
      as [p' g1].
    cbn [fst] in Hin, Hmoved.
    specialize (IH (better gb p') g1). cbv zeta in IH.
    destruct (sweep parameters D lower upper objective rest (better gb p') g1)
      as [[rest' gb'] g2].
    cbn [fst] in IH |- *. destruct IH as [IHin IHmoved].
    split; constructor; assumption.
Qed.

Lemma iteration_moved (st : RunState) :
  valid_configuration parameters D lower upper = true ->
  let st' := iteration parameters D lower upper objective st in
  Forall (in_bounds D lower upper) (particles (swarm st'))
  /\ Forall2 moved (particles (swarm st)) (particles (swarm st')).
Proof.
  intros Hvalid. unfold iteration.
  pose proof (sweep_moved (particles (swarm st)) Hvalid
                (global_best_position (swarm st), global_best_fitness (swarm st))
                (random st)) as Hsweep.
  cbv zeta in Hsweep.
  destruct (sweep parameters D lower upper objective (particles (swarm st))
              (global_best_position (swarm st), global_best_fitness (swarm st))
              (random st)) as [[ps gb] g].
  exact Hsweep.
Qed.

(** Each state of the trace is the [iteration] of the state before it. *)
Lemma iterate_consecutive (fuel : nat) :
  forall (st : RunState) (k : nat) (s1 s2 : RunState),
    let trace :=
      fst (iterate parameters D lower upper objective cancel_requested fuel st) in
    nth_error (st :: trace) k = Some s1 ->
    nth_error trace k = Some s2 ->
    s2 = iteration parameters D lower upper objective s1.
Proof.
  induction fuel as [| fuel IH]; intros st k s1 s2; cbn [iterate].
  - destruct k; discriminate.
  - destruct (cancel_requested (iterations_done st)).
    + destruct k; discriminate.
    + set (st' := iteration parameters D lower upper objective st).
      destruct (monitor parameters st') as [reason |].
      * destruct k as [| k]; cbn.
        -- intros H1 H2. injection H1 as <-. injection H2 as <-. reflexivity.
        -- destruct k; discriminate.
      * specialize (IH st'). cbv zeta in IH.
        destruct (iterate parameters D lower upper objective cancel_requested
                    fuel st') as [trace reason].
        cbn [fst] in IH |- *.
        destruct k as [| k].
        -- cbn. intros H1 H2. injection H1 as <-. injection H2 as <-.
           reflexivity.
        -- cbn [nth_error]. apply IH.
Qed.

(** C6: a run with a valid configuration returns, and after each of its
    iterations every particle lies within the bounds in every dimension;
    every particle of a state is the particle of the state before it after
    the update rule and boundary handling, where a component that left the
    bounds sits on the nearest bound with velocity zero. *)
Theorem boundary_handling_invariant (g : RandomGenerator) :
  valid_configuration parameters D lower upper = true ->
  exists (trace : list RunState) (reason : stop_reason),
    run_trace parameters D lower upper objective cancel_requested g
    = Returns (trace, reason)
    /\ (forall st : RunState, In st trace ->
          Forall (in_bounds D lower upper) (particles (swarm st)))
    /\ (forall (k : nat) (st st' : RunState),
          nth_error
            (init_state parameters D lower upper objective g :: trace) k
          = Some st ->
          nth_error trace k = Some st' ->
          Forall2 (moved_from parameters D lower upper)
                  (particles (swarm st)) (particles (swarm st'))).
Proof.
  intros Hvalid. unfold run_trace. rewrite Hvalid.
  set (st0 := init_state parameters D lower upper objective g).
  pose proof (iterate_consecutive (Z.to_nat (max_iterations parameters)) st0)
    as Hcons. cbv zeta in Hcons.
  destruct (iterate parameters D lower upper objective cancel_requested
              (Z.to_nat (max_iterations parameters)) st0) as [trace reason].
  cbn [fst] in Hcons.
  exists trace, reason. split; [reflexivity |].
  assert (Hstep : forall (k : nat) (st st' : RunState),
            nth_error (st0 :: trace) k = Some st ->
            nth_error trace k = Some st' ->
            Forall (in_bounds D lower upper) (particles (swarm st'))
            /\ Forall2 moved (particles (swarm st)) (particles (swarm st'))).
  { intros k st st' H1 H2. rewrite (Hcons k st st' H1 H2).
    apply iteration_moved. exact Hvalid. }
  split.
  - intros st Hin. apply In_nth_error in Hin. destruct Hin as [k Hk].
    assert (Hprev : exists s : RunState, nth_error (st0 :: trace) k = Some s).
    { destruct (nth_error (st0 :: trace) k) as [s |] eqn:E; [eauto |].
      apply nth_error_None in E. cbn [List.length] in E.
      assert (Hlt : (k < List.length trace)%nat)
        by (apply nth_error_Some; congruence).
      lia. }
    destruct Hprev as [s Hs]. exact (proj1 (Hstep k s st Hs Hk)).
  - intros k st st' H1 H2. exact (proj2 (Hstep k st st' H1 H2)).
Qed.

End OptimizerFacts.

Lemma boundary_handling_invariant_witness :
  valid_configuration PSOParameters_default 2 [-10; -10] [10; 10] = true
  /\ exists (trace : list RunState) (reason : stop_reason),
       run_trace PSOParameters_default 2 [-10; -10] [10; 10] sum_of_squares
                 never_cancelled (RandomGenerator_seeded 42)
       = Returns (trace, reason)
       /\ (forall st : RunState, In st trace ->
             Forall (in_bounds 2 [-10; -10] [10; 10]) (particles (swarm st)))
       /\ (forall (k : nat) (st st' : RunState),
             nth_error
               (init_state PSOParameters_default 2 [-10; -10] [10; 10]
                           sum_of_squares (RandomGenerator_seeded 42) :: trace) k
             = Some st ->
             nth_error trace k = Some st' ->
             Forall2 (moved_from PSOParameters_default 2 [-10; -10] [10; 10])
                     (particles (swarm st)) (particles (swarm st'))).
Proof.
  split; [reflexivity |].
  apply (boundary_handling_invariant PSOParameters_default 2 [-10; -10]
           [10; 10] sum_of_squares never_cancelled (RandomGenerator_seeded 42)).
  reflexivity.
Defined.

(** * Further properties of the generator and of the structs *)

(** ** RandomGenerator *)

Lemma uniform_calls_length (calls : list (Q * Q)) :
  forall rg : RandomGenerator,
    List.length (fst (uniform_calls rg calls)) = List.length calls.
Proof.
  induction calls as [| [min max] rest IH]; intros rg; cbn [uniform_calls].
  - reflexivity.
  - destruct (uniform rg min max) as [v rg1]. specialize (IH rg1).
    destruct (uniform_calls rg1 rest) as [vs rg2].
    cbn [fst List.length] in IH |- *. rewrite IH. reflexivity.
Qed.

(** One step of a call sequence. *)
Lemma uniform_calls_cons (rg : RandomGenerator) (min max : Q)
    (rest : list (Q * Q)) :
  fst (uniform_calls rg ((min, max) :: rest))
  = fst (uniform rg min max)
    :: fst (uniform_calls (snd (uniform rg min max)) rest).
Proof.
  cbn [uniform_calls]. destruct (uniform rg min max) as [v rg1].
  cbn [fst snd]. destruct (uniform_calls rg1 rest) as [vs rg2]. reflexivity.
Qed.



(** Outputs at a position where two call sequences have the same
    arguments, on instances whose engines agree. *)
Lemma uniform_calls_pointwise_engine (calls1 : list (Q * Q)) :
  forall (calls2 : list (Q * Q)) (k : nat) (rg1 rg2 : RandomGenerator),
    generator_ rg1 = generator_ rg2 ->
    nth_error calls1 k = nth_error calls2 k ->
    nth_error (fst (uniform_calls rg1 calls1)) k
    = nth_error (fst (uniform_calls rg2 calls2)) k.
Proof.
  induction calls1 as [| [a1 b1] rest1 IH];
    intros calls2 k rg1 rg2 Hgen Hk.
  - cbn [uniform_calls fst]. rewrite nth_error_nil in Hk |- *. symmetry.
    symmetry in Hk. apply nth_error_None in Hk. apply nth_error_None.
    rewrite uniform_calls_length. exact Hk.
  - destruct calls2 as [| [a2 b2] rest2].
    + rewrite nth_error_nil in Hk.
      change (fst (uniform_calls rg2 [])) with (@nil Q).
      rewrite nth_error_nil.
      apply nth_error_None in Hk. apply nth_error_None.
      rewrite uniform_calls_length. exact Hk.
    + rewrite !uniform_calls_cons. destruct k as [| k]; cbn [nth_error] in *.
      * injection Hk as <- <-. f_equal.
        unfold uniform. rewrite Hgen. reflexivity.
      * apply IH; [| exact Hk].
        rewrite !uniform_generator, Hgen. reflexivity.
Qed.

(** X3: the [k]-th output of a call sequence depends on the instance, on
    [k] and on the arguments of the [k]-th call only: two sequences of calls
    on the same instance that agree at position [k] return the same value
    there, whatever the arguments of the other calls. *)
Theorem uniform_calls_pointwise (rg : RandomGenerator)
    (calls1 calls2 : list (Q * Q)) (k : nat) :
  nth_error calls1 k = nth_error calls2 k ->
  nth_error (fst (uniform_calls rg calls1)) k
  = nth_error (fst (uniform_calls rg calls2)) k.
Proof. apply uniform_calls_pointwise_engine. reflexivity. Qed.

Lemma uniform_calls_pointwise_witness :
  nth_error [(0, 1); (5, 10)] 1 = nth_error [(-3, 3); (5, 10); (0, 2)] 1
  /\ nth_error
       (fst (uniform_calls (RandomGenerator_seeded 42) [(0, 1); (5, 10)])) 1
     = nth_error
         (fst (uniform_calls (RandomGenerator_seeded 42)
                             [(-3, 3); (5, 10); (0, 2)])) 1.
Proof.
  split; [reflexivity |].
  apply (uniform_calls_pointwise (RandomGenerator_seeded 42)
           [(0, 1); (5, 10)] [(-3, 3); (5, 10); (0, 2)] 1).
  reflexivity.
Defined.

Lemma seed_head (value : Z) :
  hd 0%Z (MT19937.seed value) = (value mod MT19937.word_mod)%Z.
Proof. reflexivity. Qed.

Lemma seed_mod (value : Z) :
  MT19937.seed (value mod MT19937.word_mod) = MT19937.seed value.
Proof.
  unfold MT19937.seed. rewrite Z.mod_mod by discriminate. reflexivity.
Qed.

(** X5: two instances built by the seeded constructor are the same object
    exactly when their seeds agree modulo 2^32; the same holds for two
    [setSeed] calls on one instance. *)
Theorem seeded_equal_iff (s1 s2 : Z) :
  (RandomGenerator_seeded s1 = RandomGenerator_seeded s2
   <-> (s1 mod 2 ^ 32 = s2 mod 2 ^ 32)%Z)
  /\ (forall rg : RandomGenerator,
        setSeed rg s1 = setSeed rg s2 <-> (s1 mod 2 ^ 32 = s2 mod 2 ^ 32)%Z).
Proof.
  assert (Hseed : MT19937.seed s1 = MT19937.seed s2
                  <-> (s1 mod 2 ^ 32 = s2 mod 2 ^ 32)%Z).
  { split; intros H.
    - apply (f_equal (hd 0%Z)) in H. rewrite !seed_head in H. exact H.
    - rewrite <- (seed_mod s1), <- (seed_mod s2).
      change MT19937.word_mod with (2 ^ 32)%Z. rewrite H. reflexivity. }
  split; [| intros rg]; (split; intros H).
  - apply Hseed. exact (f_equal generator_ H).
  - unfold RandomGenerator_seeded. rewrite (proj2 Hseed H). reflexivity.
  - apply Hseed. exact (f_equal generator_ H).
  - unfold setSeed. rewrite (proj2 Hseed H). reflexivity.
Qed.

Lemma lxor_mod_pow2 (x y n : Z) :
  (0 <= n)%Z ->
  (Z.lxor x y mod 2 ^ n = Z.lxor (x mod 2 ^ n) (y mod 2 ^ n) mod 2 ^ n)%Z.
Proof.
  intros Hn. apply Z.bits_inj'. intros i Hi.
  rewrite !Z.testbit_mod_pow2 by exact Hn.
  rewrite !Z.lxor_spec. rewrite !Z.testbit_mod_pow2 by exact Hn.
  destruct (i <? n)%Z; [reflexivity |].
  reflexivity.
Qed.

(** X6: the default constructor uses the low 32 bits of its two readings
    only: it builds the instance that the seeded constructor builds from the
    xor of the random device's value and the clock count, each taken modulo
    2^32. *)
Theorem default_uses_low_bits (entropy ticks : Z) :
  RandomGenerator_default entropy ticks
  = RandomGenerator_seeded
      (Z.lxor (entropy mod 2 ^ 32) (ticks mod 2 ^ 32)).
Proof.
  assert (Hseed : MT19937.seed (Z.lxor entropy ticks)
                  = MT19937.seed
                      (Z.lxor (entropy mod 2 ^ 32) (ticks mod 2 ^ 32))).
  { rewrite <- (seed_mod (Z.lxor entropy ticks)).
    rewrite <- (seed_mod (Z.lxor (entropy mod 2 ^ 32) (ticks mod 2 ^ 32))).
    change MT19937.word_mod with (2 ^ 32)%Z.
    rewrite (lxor_mod_pow2 entropy ticks 32) by discriminate. reflexivity. }
  unfold RandomGenerator_default, RandomGenerator_seeded.
  rewrite Hseed. reflexivity.
Qed.

(** ** The structs *)

(** X7: every member of a default-constructed [PSOParameters] holds a
    value: reading any member the struct declares is defined. *)
Theorem PSOParameters_default_readable (name : string) (ty : ctype) :
  member_type PSOParameters_decl name = Some ty ->
  exists v : value,
    read_member (default_init PSOParameters_decl) name = Some v.
Proof.
  unfold PSOParameters_decl, member_type, default_init, read_member,
    get_member, map, default_init_member, m_name, m_type, m_init.
  repeat match goal with
         | |- context [String.eqb ?k name] =>
             destruct (String.eqb_spec k name) as [_ | _]
         end; intros H; try discriminate H; eexists; reflexivity.
Qed.

Lemma PSOParameters_default_readable_witness :
  member_type PSOParameters_decl "fitness_threshold" = Some TDouble
  /\ exists v : value,
       read_member (default_init PSOParameters_decl) "fitness_threshold"
       = Some v.
Proof.
  split; [reflexivity |].
  apply (PSOParameters_default_readable "fitness_threshold" TDouble).
  reflexivity.
Defined.

(** * The range of binary64 and the initialisation forms *)

(** ** uniform over doubles *)

(** Closed comparisons of rationals, by computation. *)
Ltac Q_compute := apply Qle_bool_imp_le; vm_compute; reflexivity.

Lemma DBL_MAX_pos : 0 <= DBL_MAX.
Proof. Q_compute. Qed.

Lemma DBL_MAX_below_threshold : DBL_MAX < overflow_threshold.
Proof.
  apply Qnot_le_lt. intros H. apply Qle_bool_iff in H.
  vm_compute in H. discriminate H.
Qed.

(** An exact result within the finite range is kept. *)
Lemma round_overflow_finite (q : Q) :
  - DBL_MAX <= q <= DBL_MAX -> round_overflow q = Finite q.
Proof.
  intros [Hlo Hhi]. pose proof DBL_MAX_below_threshold as Hthr.
  unfold round_overflow.
  destruct (Qle_bool overflow_threshold q) eqn:E1.
  - apply Qle_bool_iff in E1. exfalso. lra.
  - destruct (Qle_bool q (- overflow_threshold)) eqn:E2;
      [| reflexivity].
    apply Qle_bool_iff in E2. exfalso. lra.
Qed.

Lemma finite_double_bounds (q : Q) :
  finite_double q <-> - DBL_MAX <= q <= DBL_MAX.
Proof. unfold finite_double. apply Qabs_Qle_condition. Qed.

(** Whatever the arguments, the instance after the call is the one the
    exact computation leaves. *)
Lemma uniform_binary64_state (rg : RandomGenerator) (min max : Q) :
  snd (uniform_binary64 rg min max) = snd (uniform rg min max).
Proof.
  unfold uniform_binary64, uniform, draw.
  destruct (generate_canonical (generator_ rg)). reflexivity.
Qed.

(** One evaluation of the distribution's formula without overflow. *)
Lemma formula_finite (u min max : Q) :
  0 <= u -> u < 1 -> admissible_range (min, max) ->
  double_add (double_mul (Finite u) (double_sub (Finite max) (Finite min)))
             (Finite min)
  = Finite (u * (max - min) + min)
  /\ min <= u * (max - min) + min <= max.
Proof.
  intros Hu0 Hu1 (Hmin & Hmax & Hle & Hwidth).
  cbn [fst snd] in Hmin, Hmax, Hle, Hwidth.
  apply finite_double_bounds in Hmin. apply finite_double_bounds in Hmax.
  pose proof DBL_MAX_pos as Hpos.
  assert (Hd : 0 <= max - min) by lra.
  pose proof (Qmult_le_0_compat _ _ Hu0 Hd) as Hlo.
  assert (Hhi : u * (max - min) <= 1 * (max - min)).
  { apply Qmult_le_compat_r; [apply Qlt_le_weak; exact Hu1 | exact Hd]. }
  unfold double_sub, double_opp, double_add.
  change (max + - min) with (max - min).
  rewrite (round_overflow_finite (max - min)) by (split; lra).
  unfold double_mul.
  rewrite (round_overflow_finite (u * (max - min))) by (split; lra).
  rewrite (round_overflow_finite (u * (max - min) + min)) by (split; lra).
  split; [reflexivity | split; lra].
Qed.

(** Within the preconditions, [uniform_binary64] returns the finite value of
    the exact computation, and it lies in the range. *)
Lemma uniform_binary64_admissible (rg : RandomGenerator) (min max : Q) :
  MT19937.wf (generator_ rg) -> admissible_range (min, max) ->
  exists v : Q,
    fst (uniform_binary64 rg min max) = Finite v /\ min <= v <= max.
Proof.
  intros Hwf Hadm. unfold uniform_binary64.
  destruct (generate_canonical_range _ Hwf) as (H0 & H1 & _).
  destruct (generate_canonical (generator_ rg)) as [u g'].
  cbn [fst snd param_a param_b] in *.
  destruct (formula_finite u min max H0 H1 Hadm) as [Heq Hrange].
  exists (u * (max - min) + min). split; assumption.
Qed.

Lemma call_uniform_binary64_ordered (glibcxx_assertions : bool)
    (rg : RandomGenerator) (min max : Q) :
  min <= max ->
  call_uniform_binary64 glibcxx_assertions rg min max
  = Ends (Returns (fst (uniform_binary64 rg min max),
                   snd (uniform_binary64 rg min max))).
Proof.
  intros Hle. unfold call_uniform_binary64.
  rewrite (proj2 (Qlt_bool_false_iff max min) Hle), andb_false_r.
  destruct (uniform_binary64 rg min max). reflexivity.
Qed.

(** C1, as stated, fails: with [min = 1 > max = 0] the call on a generator
    seeded with 42 does not end in [InvalidRange]: with the library's
    assertions the process is aborted, without them the call returns. *)
Lemma uniform_inverted_range_not_InvalidRange :
  0 < 1
  /\ call_uniform_binary64 true (RandomGenerator_seeded 42) 1 0 = Aborted
  /\ call_uniform_binary64 false (RandomGenerator_seeded 42) 1 0
     = Ends (Returns (uniform_binary64 (RandomGenerator_seeded 42) 1 0))
  /\ call_uniform_binary64 true (RandomGenerator_seeded 42) 1 0
     <> Ends (Raises InvalidRange)
  /\ call_uniform_binary64 false (RandomGenerator_seeded 42) 1 0
     <> Ends (Raises InvalidRange).
Proof.
  split; [reflexivity |].
  split; [reflexivity |].
  split; [reflexivity |].
  split; discriminate.
Qed.

(** C1, amended: for every [min > max], [uniform(min, max)] does not fail
    with [InvalidRange], nor with any other error raised to the caller,
    whether the library's assertions are enabled or not: [uniform] makes no
    range check.  With the assertions enabled the process is aborted. *)
Theorem uniform_inverted_range_raises_nothing (glibcxx_assertions : bool)
    (rg : RandomGenerator) (min max : Q) :
  max < min ->
  (forall e : Error,
     call_uniform_binary64 glibcxx_assertions rg min max <> Ends (Raises e))
  /\ (glibcxx_assertions = true ->
      call_uniform_binary64 glibcxx_assertions rg min max = Aborted).
Proof.
  intros Hlt. unfold call_uniform_binary64.
  rewrite (proj2 (Qlt_bool_iff max min) Hlt), andb_true_r.
  split.
  - intros e. destruct glibcxx_assertions; discriminate.
  - intros ->. reflexivity.
Qed.

Lemma uniform_inverted_range_raises_nothing_witness :
  0 < 1
  /\ (forall e : Error,
        call_uniform_binary64 true (RandomGenerator_seeded 42) 1 0
        <> Ends (Raises e))
  /\ (true = true ->
      call_uniform_binary64 true (RandomGenerator_seeded 42) 1 0 = Aborted).
Proof.
  split; [reflexivity |].
  apply (uniform_inverted_range_raises_nothing true
           (RandomGenerator_seeded 42) 1 0).
  reflexivity.
Defined.




Lemma uniform_binary64_calls_cons (rg : RandomGenerator) (min max : Q)
    (rest : list (Q * Q)) :
  fst (uniform_binary64_calls rg ((min, max) :: rest))
  = fst (uniform_binary64 rg min max)
    :: fst (uniform_binary64_calls (snd (uniform_binary64 rg min max)) rest).
Proof.
  cbn [uniform_binary64_calls].
  destruct (uniform_binary64 rg min max) as [v rg1]. cbn [fst snd].
  destruct (uniform_binary64_calls rg1 rest) as [vs rg2]. reflexivity.
Qed.



(** ** Initialisation forms *)

(** C9, as stated, fails: a value-initialised [Particle] ([Particle()],
    an element of [std::vector<Particle>(n)]) is default-constructed too,
    and its two fitness members hold 0: reading them is defined. *)
Lemma Particle_value_initialised_reads_zero :
  let p := initialise value_initialisation Particle_decl in
  read_member p "personal_best_fitness" = Some (VDouble 0)
  /\ read_member p "current_fitness" = Some (VDouble 0).
Proof. cbv. split; reflexivity. Qed.

(** C9, amended: a default-initialised [Particle] ([Particle p;] in
    automatic storage, [new Particle]) has three empty vectors and two
    indeterminate fitness members, whose reading is undefined; a
    value-initialised [Particle] ([Particle()], [Particle{}], an element of
    [std::vector<Particle>(n)]) or one in static storage has the same empty
    vectors and both fitness members equal to 0. *)
Theorem Particle_initialisation :
  (let p := initialise default_initialisation Particle_decl in
   get_member p "position" = Some (VVector [])
   /\ get_member p "velocity" = Some (VVector [])
   /\ get_member p "personal_best" = Some (VVector [])
   /\ get_member p "personal_best_fitness" = Some Indeterminate
   /\ get_member p "current_fitness" = Some Indeterminate
   /\ read_member p "personal_best_fitness" = None
   /\ read_member p "current_fitness" = None)
  /\ (let p := initialise value_initialisation Particle_decl in
      read_member p "position" = Some (VVector [])
      /\ read_member p "velocity" = Some (VVector [])
      /\ read_member p "personal_best" = Some (VVector [])
      /\ read_member p "personal_best_fitness" = Some (VDouble 0)
      /\ read_member p "current_fitness" = Some (VDouble 0)).
Proof. cbv. repeat split. Qed.

(** X8: a default-initialised [OptimisationResult] ([OptimisationResult
    r;] in automatic storage) has empty [best_position], [fitness_history]
    and [convergence_reason], and its four scalar members ([best_fitness],
    [iterations], [function_evaluations], [coverged]) are indeterminate, so
    reading them is undefined; a value-initialised one
    ([OptimisationResult()], [OptimisationResult{}]) has the same empty
    members and the scalars 0, 0, 0 and false. *)
Theorem OptimisationResult_initialisation :
  (let r := initialise default_initialisation OptimisationResult_decl in
   read_member r "best_position" = Some (VVector [])
   /\ read_member r "fitness_history" = Some (VVector [])
   /\ read_member r "convergence_reason" = Some (VString EmptyString)
   /\ read_member r "best_fitness" = None
   /\ read_member r "iterations" = None
   /\ read_member r "function_evaluations" = None
   /\ read_member r "coverged" = None)
  /\ (let r := initialise value_initialisation OptimisationResult_decl in
      read_member r "best_position" = Some (VVector [])
      /\ read_member r "fitness_history" = Some (VVector [])
      /\ read_member r "convergence_reason" = Some (VString EmptyString)
      /\ read_member r "best_fitness" = Some (VDouble 0)
      /\ read_member r "iterations" = Some (VInt 0)
      /\ read_member r "function_evaluations" = Some (VInt 0)
      /\ read_member r "coverged" = Some (VBool false)).
Proof. cbv. repeat split. Qed.
